(** * scully-gh-pages-action: the deploy orchestrator of [src/index.ts]

    The action is one asynchronous function, [run], that reads the action
    inputs, probes the file system, spawns the package manager, the build, the
    static-site generator and git, and reports through [core.setFailed] and
    [core.setOutput].  This development embeds [run] as a function over an
    explicit world (the answers of the external collaborators) and an explicit
    history of effects, and proves what the specification says about it.

    The first part is the model: the JavaScript string primitives and values
    that [run] uses, the comparison of the [semver] package, and [run] itself
    in a small monad of histories and exceptions.  The second part holds the
    properties.

    Strings are byte strings (UTF-8), as Rocq's [string]; white space is the
    white space of the ASCII range.  What the packages [@actions/core],
    [@actions/exec], [@actions/io], [@yarnpkg/lockfile] and [fs] do is not
    code of the action: commands, probes, reads and parsers answer as the
    world says, [core.getInput] trims its value, and [semver.lte] follows the
    package's strict parser and its precedence rules. *)

From Stdlib Require Import String Ascii List ZArith Lia Bool.
Import ListNotations.
Open Scope string_scope.

(** ** JavaScript string primitives used by [run] *)

Module JsString.

(** [String.prototype.trim] strips white space and line terminators.  On the
    ASCII range these are TAB, LF, VT, FF, CR and SPACE. *)
Definition isWhiteSpace (c : ascii) : bool :=
  let n := nat_of_ascii c in
  ((9 <=? n)%nat && (n <=? 13)%nat) || (n =? 32)%nat.

Definition isEmpty (s : string) : bool :=
  match s with EmptyString => true | String _ _ => false end.

Fixpoint trimStart (s : string) : string :=
  match s with
  | EmptyString => EmptyString
  | String c r => if isWhiteSpace c then trimStart r else s
  end.

Fixpoint trimEnd (s : string) : string :=
  match s with
  | EmptyString => EmptyString
  | String c r =>
      let r' := trimEnd r in
      if isWhiteSpace c && isEmpty r' then EmptyString else String c r'
  end.

Definition trim (s : string) : string := trimEnd (trimStart s).

(** Every character of the string is white space. *)
Fixpoint allWhiteSpace (s : string) : bool :=
  match s with
  | EmptyString => true
  | String c r => isWhiteSpace c && allWhiteSpace r
  end.

(** [s.indexOf(needle)]: the position of the first occurrence, [-1] if none. *)
Fixpoint indexOfFrom (needle s : string) (i : Z) : Z :=
  if prefix needle s then i
  else match s with
       | EmptyString => (-1)%Z
       | String _ r => indexOfFrom needle r (i + 1)%Z
       end.

Definition indexOf (needle s : string) : Z := indexOfFrom needle s 0.

(** [s.slice(start)] for a non-negative [start]. *)
Fixpoint slice (start : nat) (s : string) : string :=
  match start, s with
  | O, _ => s
  | S n, String _ r => slice n r
  | S _, EmptyString => EmptyString
  end.

(** [re.test(s)] for a regular expression that is a literal without anchors:
    [s] contains the literal. *)
Definition test (literal s : string) : bool := (0 <=? indexOf literal s)%Z.

End JsString.

(** ** JavaScript values, exceptions and property reads *)

Module Js.

(** A thrown value: an instance of [Error] with its message, or anything
    else ([throw] accepts every value). *)
Inductive thrown : Type :=
| ErrorObj (message : string)
| NonError.

Inductive result (A : Type) : Type :=
| Ok (a : A)
| Threw (e : thrown).
Arguments Ok {A} a.
Arguments Threw {A} e.

Set Warnings "-register-all".

(** The values a lock-file parser can hand back.  A number carries the
    text that string conversion gives for it; the program does no arithmetic.
    An object lists its own properties in key order, each key once. *)
Inductive value : Type :=
| Undefined
| Null
| Bool (b : bool)
| Num (text : string)
| Str (s : string)
| Arr (items : list value)
| Obj (props : list (string * value)).

(** String conversion, as a template literal applies it. *)
Fixpoint toString (v : value) : string :=
  match v with
  | Undefined => "undefined"
  | Null => "null"
  | Bool true => "true"
  | Bool false => "false"
  | Num text => text
  | Str s => s
  | Arr items =>
      (fix join (l : list value) : string :=
         let element x :=
           match x with Undefined | Null => "" | _ => toString x end in
         match l with
         | [] => ""
         | [x] => element x
         | x :: r => element x ++ "," ++ join r
         end) items
  | Obj _ => "[object Object]"
  end.

Fixpoint lookup (k : string) (props : list (string * value)) : value :=
  match props with
  | [] => Undefined
  | (k', v) :: r => if String.eqb k k' then v else lookup k r
  end.

(** [Object.keys(o)] *)
Definition keys (props : list (string * value)) : list string :=
  map fst props.

(** The property read [v[k]] (or [v.k]), for the keys [run] reads: none is an
    array index, ["length"] or a name on a built-in prototype.  Reading a
    property of [undefined] or [null] throws a [TypeError]. *)
Definition get (v : value) (k : string) : result value :=
  match v with
  | Undefined =>
      Threw (ErrorObj ("Cannot read property '" ++ k ++ "' of undefined"))
  | Null => Threw (ErrorObj ("Cannot read property '" ++ k ++ "' of null"))
  | Obj props => Ok (lookup k props)
  | Bool _ | Num _ | Str _ | Arr _ => Ok Undefined
  end.

Definition isError (e : thrown) : bool :=
  match e with ErrorObj _ => true | NonError => false end.

End Js.

(** ** The [semver] package: strict parsing and [lte] *)

Module Semver.
Import JsString Js.

Inductive identifier : Type :=
| Numeric (n : Z)
| Alphanumeric (s : string).

Record SemVer : Type := mkSemVer {
  major : Z;
  minor : Z;
  patch : Z;
  prerelease : list identifier;
  build : list string
}.

Definition MAX_LENGTH : nat := 256.
Definition MAX_SAFE_INTEGER : Z := 9007199254740991.

Definition isDigit (c : ascii) : bool :=
  let n := nat_of_ascii c in ((48 <=? n) && (n <=? 57))%nat.

Definition isLetter (c : ascii) : bool :=
  let n := nat_of_ascii c in
  (((65 <=? n) && (n <=? 90)) || ((97 <=? n) && (n <=? 122)))%nat.

(** [[0-9A-Za-z-]] *)
Definition isIdChar (c : ascii) : bool :=
  isDigit c || isLetter c || Ascii.eqb c "-".

Fixpoint all (p : ascii -> bool) (s : string) : bool :=
  match s with
  | EmptyString => true
  | String c r => p c && all p r
  end.

(** [/^[0-9]+$/] *)
Definition allDigits (s : string) : bool := negb (isEmpty s) && all isDigit s.

(** NUMERICIDENTIFIER, [0|[1-9]\d*] *)
Definition numericIdentifier (s : string) : bool :=
  allDigits s &&
  match s with
  | String "0" (String _ _) => false
  | _ => true
  end.

(** PRERELEASEIDENTIFIER: a numeric identifier, or [\d*[a-zA-Z-][a-zA-Z0-9-]*] *)
Definition prereleaseIdentifier (s : string) : bool :=
  negb (isEmpty s) && all isIdChar s &&
  (negb (all isDigit s) || numericIdentifier s).

(** BUILDIDENTIFIER, [[0-9A-Za-z-]+] *)
Definition buildIdentifier (s : string) : bool :=
  negb (isEmpty s) && all isIdChar s.

(** The number a string of decimal digits denotes. *)
Fixpoint toNumberFrom (acc : Z) (s : string) : Z :=
  match s with
  | EmptyString => acc
  | String c r => toNumberFrom (10 * acc + (Z.of_nat (nat_of_ascii c) - 48))%Z r
  end.

Definition toNumber (s : string) : Z := toNumberFrom 0%Z s.

(** [s.split(sep)] for a one-character separator. *)
Fixpoint split (sep : ascii) (s : string) : list string :=
  match s with
  | EmptyString => [EmptyString]
  | String c r =>
      if Ascii.eqb c sep then EmptyString :: split sep r
      else match split sep r with
           | [] => [String c EmptyString]
           | w :: ws => String c w :: ws
           end
  end.

(** The text up to the first character satisfying [p], and the rest. *)
Fixpoint break (p : ascii -> bool) (s : string) : string * string :=
  match s with
  | EmptyString => (EmptyString, EmptyString)
  | String c r =>
      if p c then (EmptyString, s)
      else let (a, b) := break p r in (String c a, b)
  end.

Definition toIdentifier (id : string) : identifier :=
  if allDigits id && (toNumber id <? MAX_SAFE_INTEGER)%Z
  then Numeric (toNumber id)
  else Alphanumeric id.

(** The match of the regular expression FULL on the trimmed text: an
    optional [v], three numeric identifiers joined by dots, then optionally
    [-] and dot-separated pre-release identifiers, then optionally [+] and
    dot-separated build identifiers, up to the end of the text.  After the main version a ['-'] can only open the pre-release
    part and a ['+'] the build part, so the match is found by cutting at these
    characters. *)
Definition parse (version : string) : option SemVer :=
  let s := trim version in
  let s := match s with String "v" r => r | _ => s end in
  let (main, rest) :=
    break (fun c => Ascii.eqb c "-" || Ascii.eqb c "+") s in
  let (pre, rest) :=
    match rest with
    | String "-" r =>
        let (p, r') := break (fun c => Ascii.eqb c "+") r in (Some p, r')
    | _ => (None, rest)
    end in
  let bld :=
    match rest with
    | String "+" r => Some r
    | _ => None
    end in
  match split "." main with
  | [a; b; c] =>
      let pres := match pre with Some p => split "." p | None => [] end in
      let blds := match bld with Some b => split "." b | None => [] end in
      if numericIdentifier a && numericIdentifier b && numericIdentifier c
         && forallb prereleaseIdentifier pres && forallb buildIdentifier blds
      then Some (mkSemVer (toNumber a) (toNumber b) (toNumber c)
                          (map toIdentifier pres) blds)
      else None
  | _ => None
  end.

(** [new SemVer(version)]; a [TypeError] for what is not a valid version. *)
Definition construct (version : value) : result SemVer :=
  match version with
  | Str s =>
      if (MAX_LENGTH <? String.length s)%nat
      then Threw (ErrorObj "version is longer than 256 characters")
      else match parse s with
           | None => Threw (ErrorObj ("Invalid Version: " ++ s))
           | Some v =>
               if (MAX_SAFE_INTEGER <? major v)%Z
               then Threw (ErrorObj "Invalid major version")
               else if (MAX_SAFE_INTEGER <? minor v)%Z
               then Threw (ErrorObj "Invalid minor version")
               else if (MAX_SAFE_INTEGER <? patch v)%Z
               then Threw (ErrorObj "Invalid patch version")
               else Ok v
           end
  | _ => Threw (ErrorObj ("Invalid Version: " ++ toString version))
  end.

Definition isNumeric (a : identifier) : bool :=
  match a with Numeric _ => true | Alphanumeric s => allDigits s end.

Definition numberOf (a : identifier) : Z :=
  match a with Numeric n => n | Alphanumeric s => toNumber s end.

Definition textOf (a : identifier) : string :=
  match a with Numeric _ => EmptyString | Alphanumeric s => s end.

(** [compareIdentifiers]: numbers sort numerically and before every text,
    texts sort in code-unit order.  (Numeric identifiers of 2^53 and more are
    compared exactly here, where the package compares their doubles.) *)
Definition compareIdentifiers (a b : identifier) : comparison :=
  match isNumeric a, isNumeric b with
  | true, true => Z.compare (numberOf a) (numberOf b)
  | true, false => Lt
  | false, true => Gt
  | false, false => String.compare (textOf a) (textOf b)
  end.

Definition orElse (c d : comparison) : comparison :=
  match c with Eq => d | _ => c end.

Definition compareMain (a b : SemVer) : comparison :=
  orElse (Z.compare (major a) (major b))
    (orElse (Z.compare (minor a) (minor b)) (Z.compare (patch a) (patch b))).

(** The loop of [comparePre] over the two identifier lists. *)
Fixpoint comparePreLoop (a b : list identifier) : comparison :=
  match a, b with
  | [], [] => Eq
  | _ :: _, [] => Gt
  | [], _ :: _ => Lt
  | x :: a', y :: b' => orElse (compareIdentifiers x y) (comparePreLoop a' b')
  end.

(** A version without pre-release is greater than one with. *)
Definition comparePre (a b : SemVer) : comparison :=
  match prerelease a, prerelease b with
  | _ :: _, [] => Lt
  | [], _ :: _ => Gt
  | [], [] => Eq
  | pa, pb => comparePreLoop pa pb
  end.

Definition compare (a b : SemVer) : comparison :=
  orElse (compareMain a b) (comparePre a b).

(** [semver.lte(a, b)]: both versions are constructed, [a] first. *)
Definition lte (a b : value) : result bool :=
  match construct a with
  | Threw e => Threw e
  | Ok va =>
      match construct b with
      | Threw e => Threw e
      | Ok vb => Ok (match compare va vb with Gt => false | _ => true end)
      end
  end.


End Semver.

(** ** The action: effects, world and [run] *)

Module Action.
Import JsString Js.

(** What a run does to its surroundings: [console.log], [ioUtil.exists],
    [exec.exec] (with its argument list and the [cwd] option),
    [readFileSync], [io.cp] (with the [force] option), [core.setFailed] and
    [core.setOutput]. *)
Inductive event : Type :=
| Log (message : string)
| Exists (path : string)
| Exec (commandLine : string) (args : list string) (cwd : option string)
| ReadFile (path : string)
| Cp (source dest : string) (force : bool)
| SetFailed (message : string)
| SetOutput (name : string) (value : bool).

(** The events of a run so far, oldest first. *)

Definition history : Type := list event.

(** [github.context] *)
Record Context : Type := mkContext {
  ref : string;
  owner : string;
  repo : string;
  actor : string;
  sha : string
}.

(** The surroundings of a run.  Each collaborator answers the call that is the
    last event of the history it is given, and may answer by what happened
    before: later probes of one path need not agree. *)
Record World : Type := mkWorld {
  input : string -> string;
  context : Context;
  exists_ : history -> result bool;
  exec_ : history -> result unit;
  readFileSync_ : history -> result string;
  cp_ : history -> result unit;
  lockfile_parse : string -> result (list (string * value));
  JSON_parse : string -> result value
}.

(** Computations that extend the history and return or throw. *)
Definition M (A : Type) : Type := history -> history * result A.

Definition ret {A : Type} (a : A) : M A := fun h => (h, Ok a).

Definition bind {A B : Type} (m : M A) (f : A -> M B) : M B :=
  fun h =>
    match m h with
    | (h', Ok a) => f a h'
    | (h', Threw e) => (h', Threw e)
    end.

Definition emit (e : event) : M unit := fun h => ((h ++ [e])%list, Ok tt).

Definition call {A : Type} (e : event) (answer : history -> result A) : M A :=
  fun h => ((h ++ [e])%list, answer (h ++ [e])%list).

Definition lift {A : Type} (r : result A) : M A := fun h => (h, r).

Notation "x <- m ;; k" := (bind m (fun x => k))
  (at level 61, m at next level, right associativity).
Notation "m ;; k" := (bind m (fun _ => k))
  (at level 61, right associativity).

Definition DEFAULT_DEPLOY_BRANCH : string := "main".

Definition SCULLY : string := "@scullyio/scully".

(** [let deployBranch = ...; if (!deployBranch) deployBranch = DEFAULT_DEPLOY_BRANCH] *)
Definition deployBranch (input : string) : string :=
  if isEmpty input then DEFAULT_DEPLOY_BRANCH else input.

Definition pkgManager (yarnLock : bool) : string :=
  if yarnLock then "yarn" else "npm".

Definition installCmd (pkgManager : string) : string :=
  if String.eqb pkgManager "yarn" then "install --frozen-lockfile" else "ci".

(** [buildArgs] (lines 37-41), from what [core.getInput('build-args')]
    returned. *)
Definition buildArgs (input : string) : string :=
  let buildArgs := trim input in
  if negb (String.eqb buildArgs "") && negb (indexOf "-- " buildArgs =? 0)%Z
  then "-- " ++ buildArgs
  else buildArgs.

(** [scullyArgs] (lines 43-48), from what [core.getInput('scully-args')]
    returned. *)
Definition scullyArgs (input : string) : string :=
  let scullyArgs := trim input in
  if (indexOf "-- " scullyArgs =? 0)%Z then slice 3 scullyArgs else scullyArgs.

(** The yarn branch of the version lookup (lines 62-66), on
    [yarnLockParsed.object].  An
    empty filter result makes [getScullyChildObjectKey[0]] undefined, and the
    property read then uses the key ["undefined"]. *)
Definition yarnScullyVersion (object : list (string * value)) : result value :=
  let getScullyChildObjectKey := filter (test SCULLY) (keys object) in
  let key := match getScullyChildObjectKey with
             | k :: _ => k
             | [] => "undefined"
             end in
  get (lookup key object) "version".

(** The npm branch of the version lookup (line 71), on the parsed
    [package-lock.json]. *)
Definition npmScullyVersion (packageLockJsonParsed : value) : result value :=
  match get packageLockJsonParsed "dependencies" with
  | Threw e => Threw e
  | Ok dependencies =>
      match get dependencies SCULLY with
      | Threw e => Threw e
      | Ok entry => get entry "version"
      end
  end.

(** [if (semver.lte(scullyVersion, '0.0.85')) scullyArgs = `--nw ${scullyArgs}`]
    (lines 76-79); the flag tells whether the branch was taken. *)
Definition nwFlag (scullyVersion : value) (scullyArgs : string)
  : result (bool * string) :=
  match Semver.lte scullyVersion (Str "0.0.85") with
  | Threw e => Threw e
  | Ok true => Ok (true, "--nw " ++ scullyArgs)
  | Ok false => Ok (false, scullyArgs)
  end.

Definition repoURL (accessToken owner repo : string) : string :=
  "https://" ++ accessToken ++ "@github.com/" ++ (owner ++ "/" ++ repo) ++ ".git".

Definition STATIC : option string := Some "./dist/static".

Section Run.

Variable w : World.

(** [core.getInput(name)]: the input's value, trimmed. *)
Definition getInput (name : string) : string := trim (input w name).

Definition log (message : string) : M unit := emit (Log message).

Definition exists_p (path : string) : M bool := call (Exists path) (exists_ w).

Definition exec (commandLine : string) (args : list string)
  (cwd : option string) : M unit :=
  call (Exec commandLine args cwd) (exec_ w).

Definition readFileSync (path : string) : M string :=
  call (ReadFile path) (readFileSync_ w).

Definition cp (source dest : string) (force : bool) : M unit :=
  call (Cp source dest force) (cp_ w).

(** "determine the scully version" (lines 55-72) *)
Definition scullyVersion (pkgManager : string) : M value :=
  if String.eqb pkgManager "yarn" then
    log "Determine Scully version from './yarn.lock'." ;;
    yarnLockRaw <- readFileSync "./yarn.lock" ;;
    object <- lift (lockfile_parse w yarnLockRaw) ;;
    lift (yarnScullyVersion object)
  else
    log "Determine Scully version from './package-lock.json'." ;;
    packageLockJsonRaw <- readFileSync "./package-lock.json" ;;
    packageLockJsonParsed <- lift (JSON_parse w packageLockJsonRaw) ;;
    lift (npmScullyVersion packageLockJsonParsed).

(** The custom-domain step (lines 84-89). *)
Definition copyCname : M unit :=
  cnameExists <- exists_p "./CNAME" ;;
  if (cnameExists : bool) then
    log "Copying CNAME over." ;;
    cp "./CNAME" "./dist/static/CNAME" true ;;
    log "Finished copying CNAME."
  else ret tt.

(** The git steps, in [./dist/static] (lines 91-110). *)
Definition deploy (accessToken deployBranch : string) : M unit :=
  let c := context w in
  let repo := owner c ++ "/" ++ repo c in
  let repoURL := repoURL accessToken (owner c) (Action.repo c) in
  log "Ready to deploy your new shiny site!" ;;
  log ("Deploying to repo: " ++ repo ++ " and branch: " ++ deployBranch) ;;
  log "You can configure the deploy branch by setting the `deploy-branch` input for this action." ;;
  exec "git init" [] STATIC ;;
  exec "git config user.name" [actor c] STATIC ;;
  exec "git config user.email" [actor c ++ "@users.noreply.github.com"] STATIC ;;
  exec "git add" ["."] STATIC ;;
  exec "git commit"
    ["-m"; "deployed via Scully Publish Action 🎩 for " ++ sha c] STATIC ;;
  exec "git push" ["-f"; repoURL; "main:" ++ deployBranch] STATIC ;;
  log "Finished deploying your site.".

(** Everything after the package manager is chosen (lines 32-113). *)
Definition installAndDeploy (pkgManager accessToken deployBranch : string)
  : M unit :=
  let installCmd := installCmd pkgManager in
  log ("Installing your site's dependencies using " ++ pkgManager ++ ".") ;;
  exec (pkgManager ++ " " ++ installCmd) [] None ;;
  log "Finished installing dependencies." ;;
  let buildArgs := buildArgs (getInput "build-args") in
  let scullyArgs := scullyArgs (getInput "scully-args") in
  log "Ready to build your Scully site!" ;;
  log ("Building with: " ++ pkgManager ++ " run build " ++ buildArgs) ;;
  exec (pkgManager ++ " run build " ++ buildArgs) [] None ;;
  log "Finished building your site." ;;
  scullyVersion <- scullyVersion pkgManager ;;
  log ("Scully Version " ++ toString scullyVersion ++ " is used") ;;
  flagged <- lift (nwFlag scullyVersion scullyArgs) ;;
  (if fst flagged
   then log "Scully Version is less then '0.0.85', adding '--nw' flag"
   else ret tt) ;;
  let scullyArgs := snd flagged in
  exec (pkgManager ++ " run scully -- " ++ scullyArgs) [] None ;;
  log "Finished Scullying your site." ;;
  copyCname ;;
  deploy accessToken deployBranch ;;
  log "Enjoy! ✨" ;;
  emit (SetOutput "success" true).

(** Everything after the early-exit guard, from the probe of line 31. *)
Definition build (accessToken deployBranch : string) : M unit :=
  yarnLock <- exists_p "./yarn.lock" ;;
  installAndDeploy (pkgManager yarnLock) accessToken deployBranch.

(** The [try] block of [run] (lines 13-113).  The two early [return]s are the
    two [then] branches. *)
Definition body : M unit :=
  let accessToken := getInput "access-token" in
  if String.eqb accessToken "" then
    emit (SetFailed "No personal access token found. Please provide one by setting the `access-token` input for this action.")
  else
    let deployBranch := deployBranch (getInput "deploy-branch") in
    if String.eqb (ref (context w)) ("refs/heads/" ++ deployBranch) then
      log ("Triggered by branch used to deploy: " ++ ref (context w) ++ ".") ;;
      log "Nothing to deploy."
    else build accessToken deployBranch.

(** [catch (error) { if (error instanceof Error) core.setFailed(error.message) }] *)
Definition handler (e : thrown) : M unit :=
  match e with
  | ErrorObj message => emit (SetFailed message)
  | NonError => ret tt
  end.

(** [run()], from an empty history: everything the run did. *)
Definition run : history :=
  match body [] with
  | (h, Ok _) => h
  | (h, Threw e) => fst (handler e h)
  end.

End Run.

End Action.

(** ** Worlds for examples *)

Module Scenario.
Import JsString Js Action.

(** The answers of a world in which every command succeeds, every file reads
    as [raw], and the two probes answer [yarnLock] and [cname]. *)
Definition calm (inputs : string -> string) (ref : string)
  (yarnLock cname : bool) (yarnObject : list (string * value))
  (packageLock : value) : World :=
  mkWorld inputs (mkContext ref "octo" "site" "bot" "abc123")
    (fun h => match last h (Log "") with
              | Exists "./yarn.lock" => Ok yarnLock
              | Exists "./CNAME" => Ok cname
              | _ => Ok false
              end)
    (fun _ => Ok tt) (fun _ => Ok "raw") (fun _ => Ok tt)
    (fun _ => Ok yarnObject) (fun _ => Ok packageLock).

(** Only the access token is set, to ["tok"]. *)
Definition tokenOnly (name : string) : string :=
  if String.eqb name "access-token" then "tok" else "".

Definition packageLockOf (version : string) : value :=
  Obj [("dependencies", Obj [(SCULLY, Obj [("version", Str version)])])].

(** A run for the token ["tok"], no deploy-branch input, triggered by
    [refs/heads/main]. *)
Definition onDeployBranch : World :=
  calm tokenOnly "refs/heads/main" false false [] (packageLockOf "0.0.80").

(** A world like [calm] with only a package lock, in which every command is
    rejected with the thrown value [e]. *)
Definition rejecting (e : thrown) : World :=
  mkWorld tokenOnly (mkContext "refs/heads/dev" "octo" "site" "bot" "abc123")
    (fun _ => Ok false) (fun _ => Threw e) (fun _ => Ok "raw") (fun _ => Ok tt)
    (fun _ => Ok []) (fun _ => Ok (packageLockOf "0.0.80")).

(** The entries of a yarn lock file of a project that uses the generator at
    0.0.85 and one of its plugin packages; yarn writes the entries sorted by
    key, and ['-'] sorts before ['@']. *)
Definition withPlugin : list (string * value) :=
  [ ("@scullyio/scully-plugin-puppeteer@^1.0.0", Obj [("version", Str "1.0.0")]);
    ("@scullyio/scully@^0.0.85", Obj [("version", Str "0.0.85")]) ].

(** A world with the access token [token] and no other input, without lock
    file of yarn and without [CNAME], in which every command succeeds. *)
Definition steady (token : string) : World :=
  mkWorld (fun name => if String.eqb name "access-token" then token else "")
    (mkContext "refs/heads/dev" "octo" "site" "bot" "abc123")
    (fun _ => Ok false) (fun _ => Ok tt) (fun _ => Ok "raw") (fun _ => Ok tt)
    (fun _ => Ok []) (fun _ => Ok (packageLockOf "0.0.80")).

End Scenario.

(** ** Predicates on texts, events and computations *)

Module Trace.
Import JsString Js Action.


(** The text starts with the separator ["-- "]. *)
Definition separated (s : string) : Prop := exists r, s = "-- " ++ r.

Definition isLog (e : event) : Prop :=
  match e with Log _ => True | _ => False end.

(** What the [catch] handler adds for the way the [try] block ended. *)
Definition reported {A : Type} (r : result A) : history :=
  match r with
  | Threw (ErrorObj message) => [SetFailed message]
  | Threw NonError | Ok _ => []
  end.

(** [m] only appends to the history; the appended events all satisfy [N] when
    [m] throws and [Q] when it returns. *)
Definition emits {A : Type} (N Q : event -> Prop) (m : M A) : Prop :=
  forall h, exists tr,
    fst (m h) = (h ++ tr)%list /\
    match snd (m h) with
    | Threw _ => Forall N tr
    | Ok _ => Forall Q tr
    end.

Definition any (e : event) : Prop := True.

(** [m] only appends to the history. *)
Definition extends {A : Type} (m : M A) : Prop :=
  forall h, exists tr, fst (m h) = (h ++ tr)%list.

(** When [m] returns, [e] has happened. *)
Definition reaches {A : Type} (e : event) (m : M A) : Prop :=
  forall h h' a, m h = (h', Ok a) -> In e h'.

(** The event is neither [setFailed] nor [setOutput]. *)
Definition unreported (e : event) : Prop :=
  match e with
  | SetFailed _ | SetOutput _ _ => False
  | _ => True
  end.

(** The event stays with the package manager chosen by the probe: it is no
    second probe of the yarn lock file, a command without working directory
    is a command of that package manager, a command with one is a git
    command, and the file read is that package manager's lock file. *)
Definition chosen (yarnLock : bool) (e : event) : Prop :=
  match e with
  | Exists path => path <> "./yarn.lock"
  | Exec commandLine _ None =>
      prefix (pkgManager yarnLock ++ " run ") commandLine = true \/
      commandLine = pkgManager yarnLock ++ " " ++ installCmd (pkgManager yarnLock)
  | Exec commandLine _ (Some _) => prefix "git " commandLine = true
  | ReadFile path =>
      path = if yarnLock then "./yarn.lock" else "./package-lock.json"
  | _ => True
  end.

(** The push of a run in world [w]. *)
Definition push (w : World) : event :=
  Exec "git push"
    [ "-f";
      repoURL (getInput w "access-token") (owner (context w)) (repo (context w));
      "main:" ++ deployBranch (getInput w "deploy-branch") ]
    (Some "./dist/static").

(** A [git push] is the push of the run. *)
Definition pushes (w : World) (e : event) : Prop :=
  match e with
  | Exec commandLine args cwd =>
      if String.eqb commandLine "git push" then e = push w else True
  | _ => True
  end.


(** [m] appends events that satisfy [N] and, when it returns, the event [e]
    after them. *)
Definition finishes {A : Type} (N : event -> Prop) (e : event) (m : M A)
  : Prop :=
  forall h, exists tr,
    Forall N tr /\
    match snd (m h) with
    | Threw _ => fst (m h) = (h ++ tr)%list
    | Ok _ => fst (m h) = (h ++ tr ++ [e])%list
    end.

(** Whatever [m] throws satisfies [P]. *)
Definition raises {A : Type} (P : thrown -> Prop) (m : M A) : Prop :=
  forall h x, snd (m h) = Threw x -> P x.

(** The collaborators of the world throw nothing but [Error]s, as the
    packages behind them do. *)
Definition polite (w : World) : Prop :=
  (forall h x, exists_ w h = Threw x -> isError x = true) /\
  (forall h x, exec_ w h = Threw x -> isError x = true) /\
  (forall h x, readFileSync_ w h = Threw x -> isError x = true) /\
  (forall h x, cp_ w h = Threw x -> isError x = true) /\
  (forall s x, lockfile_parse w s = Threw x -> isError x = true) /\
  (forall s x, JSON_parse w s = Threw x -> isError x = true).

(** The commands and copies of a history, in order. *)
Definition isAction (e : event) : bool :=
  match e with
  | Exec _ _ _ | Cp _ _ _ => true
  | _ => false
  end.

Definition actions (h : history) : history := filter isAction h.

(** What a complete run does, for the answer [yarnLock] of the first probe,
    the decision [nw] on the legacy flag and the answer [cname] of the second
    probe. *)
Definition plan (w : World) (yarnLock nw cname : bool) : history :=
  let pm := pkgManager yarnLock in
  let c := context w in
  app
    [ Exec (pm ++ " " ++ installCmd pm) [] None;
      Exec (pm ++ " run build " ++ buildArgs (getInput w "build-args")) [] None;
      Exec (pm ++ " run scully -- " ++ (if nw then "--nw " else "") ++
            scullyArgs (getInput w "scully-args")) [] None ]
    (app
       (if cname then [Cp "./CNAME" "./dist/static/CNAME" true] else [])
       [ Exec "git init" [] (Some "./dist/static");
         Exec "git config user.name" [actor c] (Some "./dist/static");
         Exec "git config user.email" [actor c ++ "@users.noreply.github.com"]
           (Some "./dist/static");
         Exec "git add" ["."] (Some "./dist/static");
         Exec "git commit"
           ["-m"; "deployed via Scully Publish Action 🎩 for " ++ sha c]
           (Some "./dist/static");
         push w ]).

Definition thrownBy {A : Type} (r : result A) : option thrown :=
  match r with
  | Threw x => Some x
  | Ok _ => None
  end.

(** What the world threw at the call that is the last event of [h], when it
    is a call and the world threw. *)
Definition thrownAt (w : World) (h : history) : option thrown :=
  match last h (Log "") with
  | Exists _ => thrownBy (exists_ w h)
  | Exec _ _ _ => thrownBy (exec_ w h)
  | ReadFile _ => thrownBy (readFileSync_ w h)
  | Cp _ _ _ => thrownBy (cp_ w h)
  | Log _ | SetFailed _ | SetOutput _ _ => None
  end.

(** No call of the history has thrown. *)
Definition sound (w : World) (h : history) : Prop :=
  forall p s, h = (p ++ s)%list -> thrownAt w p = None.

(** From a history in which no call has thrown, [m] returns with such a
    history, or throws with such a history, or throws what its last call
    threw and that call is the first to throw. *)
Definition careful {A : Type} (w : World) (m : M A) : Prop :=
  forall h, sound w h ->
    match snd (m h) with
    | Ok _ => sound w (fst (m h))
    | Threw x =>
        sound w (fst (m h)) \/
        exists p c, fst (m h) = (p ++ [c])%list /\ sound w p /\
                    thrownAt w (fst (m h)) = Some x
    end.

(** The event is no call: a log line or a report. *)
Definition isNote (e : event) : Prop :=
  match e with
  | Log _ | SetFailed _ | SetOutput _ _ => True
  | _ => False
  end.

(** The event without the arguments of a [git push]. *)
Definition redact (e : event) : event :=
  match e with
  | Exec commandLine args cwd =>
      if String.eqb commandLine "git push" then Exec commandLine [] cwd else e
  | _ => e
  end.

(** Two histories that differ at most in the arguments of [git push]. *)
Definition alike (h1 h2 : history) : Prop := map redact h1 = map redact h2.

(** From histories alike, the two computations lead to histories alike and
    end the same way. *)
Definition agree {A : Type} (m1 m2 : M A) : Prop :=
  forall h1 h2, alike h1 h2 ->
    alike (fst (m1 h1)) (fst (m2 h2)) /\ snd (m1 h1) = snd (m2 h2).

(** Two worlds that differ at most in the access token: the other inputs and
    the context are the same, the parsers are the same, and the collaborators
    answer alike to histories alike. *)
Definition sameButToken (w1 w2 : World) : Prop :=
  (forall name, name <> "access-token" -> input w1 name = input w2 name) /\
  context w1 = context w2 /\
  (forall h1 h2, alike h1 h2 -> exists_ w1 h1 = exists_ w2 h2) /\
  (forall h1 h2, alike h1 h2 -> exec_ w1 h1 = exec_ w2 h2) /\
  (forall h1 h2, alike h1 h2 -> readFileSync_ w1 h1 = readFileSync_ w2 h2) /\
  (forall h1 h2, alike h1 h2 -> cp_ w1 h1 = cp_ w2 h2) /\
  (forall s, lockfile_parse w1 s = lockfile_parse w2 s) /\
  (forall s, JSON_parse w1 s = JSON_parse w2 s).

End Trace.

(** * Properties *)

(** ** Facts about the string primitives *)

Module JsStringFacts.
Import JsString.

Lemma prefix_app (n r : string) : prefix n (n ++ r) = true.
Proof.
  induction n as [|c n IH]; simpl.
  - now destruct r.
  - destruct (ascii_dec c c) as [_|ne]; [exact IH | now destruct ne].
Qed.

Lemma prefix_split (n s : string) :
  prefix n s = true -> exists r, s = n ++ r.
Proof.
  revert s; induction n as [|c n IH]; intros s H.
  - now exists s.
  - destruct s as [|d s]; simpl in H; [discriminate|].
    destruct (ascii_dec c d) as [->|_]; [|discriminate].
    destruct (IH _ H) as [r ->]. now exists r.
Qed.

Lemma prefix_iff (n s : string) :
  prefix n s = true <-> exists r, s = n ++ r.
Proof.
  split; [apply prefix_split|]. intros [r ->]. apply prefix_app.
Qed.

Lemma indexOfFrom_lower (n s : string) (i : Z) :
  (0 <= i -> indexOfFrom n s i = -1 \/ i <= indexOfFrom n s i)%Z.
Proof.
  revert i; induction s as [|c s IH]; intros i Hi; cbn [indexOfFrom].
  - destruct (prefix n ""); [right; lia | now left].
  - destruct (prefix n (String c s)); [right; lia|].
    destruct (IH (i + 1)%Z ltac:(lia)) as [->|H]; [now left | right; lia].
Qed.

(** [indexOf] answers [0] exactly for a prefix. *)
Lemma indexOf_zero (n s : string) :
  indexOf n s = 0%Z <-> prefix n s = true.
Proof.
  unfold indexOf. destruct s as [|c s]; cbn [indexOfFrom].
  - destruct (prefix n ""); [tauto | split; discriminate].
  - destruct (prefix n (String c s)); [tauto|].
    split; [|discriminate]. intros H. change (0 + 1)%Z with 1%Z in H.
    destruct (indexOfFrom_lower n s 1 ltac:(lia)) as [E|E]; lia.
Qed.

Lemma indexOf_eqb (n s : string) :
  (indexOf n s =? 0)%Z = prefix n s.
Proof.
  destruct (prefix n s) eqn:E.
  - apply Z.eqb_eq, indexOf_zero, E.
  - apply Z.eqb_neq. intros H. apply indexOf_zero in H. congruence.
Qed.

Lemma slice_app (n r : string) : slice (String.length n) (n ++ r) = r.
Proof. induction n as [|c n IH]; simpl; [reflexivity | exact IH]. Qed.




Lemma trimStart_empty (s : string) :
  trimStart s = "" -> allWhiteSpace s = true.
Proof.
  induction s as [|c s IH]; simpl; [reflexivity|].
  destruct (isWhiteSpace c); simpl; [exact IH | discriminate].
Qed.


Lemma trimEnd_idem (s : string) : trimEnd (trimEnd s) = trimEnd s.
Proof.
  induction s as [|c s IH]; simpl; [reflexivity|].
  destruct (isWhiteSpace c && isEmpty (trimEnd s)) eqn:E; simpl; [reflexivity|].
  now rewrite IH, E.
Qed.

Lemma trimStart_trimEnd_head (s : string) :
  trimStart (trimEnd (trimStart s)) = trimEnd (trimStart s).
Proof.
  induction s as [|c s IH]; simpl; [reflexivity|].
  destruct (isWhiteSpace c) eqn:E; [exact IH|].
  simpl. rewrite E. simpl. now rewrite E.
Qed.

(** [trim] is idempotent. *)
Lemma trim_idem (s : string) : trim (trim s) = trim s.
Proof.
  unfold trim. rewrite trimStart_trimEnd_head. apply trimEnd_idem.
Qed.

Lemma append_assoc (a b c : string) : (a ++ b) ++ c = a ++ b ++ c.
Proof. induction a as [|x a IH]; simpl; [reflexivity | now rewrite IH]. Qed.

End JsStringFacts.

(** ** Facts about the version order *)

Module SemverFacts.
Import JsString Js Semver.






Example parse_0_0_85 :
  parse "0.0.85" = Some (mkSemVer 0 0 85 [] []).
Proof. reflexivity. Qed.

Example parse_prerelease :
  parse " v1.2.3-beta.4+exp.sha " =
  Some (mkSemVer 1 2 3 [Alphanumeric "beta"; Numeric 4] ["exp"; "sha"]).
Proof. reflexivity. Qed.

Example parse_rejects :
  map parse ["1.2"; "01.2.3"; "1.2.3-"; "1.2.3-01"; "1.2.3+"; "^0.0.85"; ""] =
  [None; None; None; None; None; None; None].
Proof. reflexivity. Qed.

Example compare_prerelease :
  map (fun p => lte (Str (fst p)) (Str (snd p)))
      [("1.0.0-alpha", "1.0.0-alpha.1"); ("1.0.0-alpha.1", "1.0.0-alpha.beta");
       ("1.0.0-beta.11", "1.0.0-beta.2"); ("1.0.0-rc.1", "1.0.0");
       ("1.0.0", "1.0.0-rc.1"); ("1.0.0+a", "1.0.0+b")] =
  [Ok true; Ok true; Ok false; Ok true; Ok false; Ok true].
Proof. reflexivity. Qed.

End SemverFacts.

(** ** Facts about computations *)

Module TraceFacts.
Import JsString Js Action Trace.

Section Emits.

Context {A : Type} (N Q : event -> Prop).

Lemma emits_ret (a : A) : emits N Q (ret a).
Proof.
  intros h. exists []. simpl. rewrite app_nil_r. split; [reflexivity | constructor].
Qed.

Lemma emits_lift (r : result A) : emits N Q (lift r).
Proof.
  intros h. exists []. simpl. rewrite app_nil_r.
  split; [reflexivity | destruct r; constructor].
Qed.

Lemma emits_call (e : event) (answer : history -> result A) :
  N e -> Q e -> emits N Q (call e answer).
Proof.
  intros Ne Qe h. exists [e]. simpl. split; [reflexivity|].
  destruct (answer _); repeat constructor; assumption.
Qed.

Lemma emits_weaken (m : M A) :
  (forall e, N e -> Q e) -> emits N N m -> emits N Q m.
Proof.
  intros NQ Hm h. destruct (Hm h) as (tr & E & F). exists tr.
  split; [exact E|]. destruct (snd (m h)); [|exact F].
  revert F. apply Forall_impl, NQ.
Qed.

End Emits.

Lemma emits_emit (N Q : event -> Prop) (e : event) :
  Q e -> emits N Q (emit e).
Proof. intros Qe h. exists [e]. simpl. split; [reflexivity | now constructor]. Qed.

Lemma emits_bind {A B : Type} (N Q : event -> Prop) (m : M A) (f : A -> M B) :
  (forall e, N e -> Q e) ->
  emits N N m -> (forall a, emits N Q (f a)) -> emits N Q (bind m f).
Proof.
  intros NQ Hm Hf h. destruct (Hm h) as (tr1 & E1 & F1). unfold bind.
  destruct (m h) as [h1 [a|e]]; simpl in E1, F1; subst h1.
  - destruct (Hf a (h ++ tr1)%list) as (tr2 & E2 & F2).
    exists (tr1 ++ tr2)%list. rewrite E2, app_assoc. split; [reflexivity|].
    destruct (snd (f a _)); apply Forall_app; split; try assumption.
    revert F1. apply Forall_impl, NQ.
  - exists tr1. simpl. split; [reflexivity | exact F1].
Qed.

Lemma emits_extends {A : Type} (m : M A) : emits any any m -> extends m.
Proof. intros Hm h. destruct (Hm h) as (tr & E & _). now exists tr. Qed.

Lemma reaches_call {A : Type} (e : event) (answer : history -> result A) :
  reaches e (call e answer).
Proof.
  intros h h' a E. injection E as <- _. apply in_or_app. right. now left.
Qed.

Lemma reaches_bind_r {A B : Type} (e : event) (m : M A) (f : A -> M B) :
  (forall a, reaches e (f a)) -> reaches e (bind m f).
Proof.
  intros Hf h h' b. unfold bind. destruct (m h) as [h1 [a|x]]; [|discriminate].
  apply Hf.
Qed.

Lemma reaches_bind_l {A B : Type} (e : event) (m : M A) (f : A -> M B) :
  reaches e m -> (forall a, extends (f a)) -> reaches e (bind m f).
Proof.
  intros Hm Hf h h' b. unfold bind.
  destruct (m h) as [h1 [a|x]] eqn:E; [|discriminate].
  intros E2. destruct (Hf a h1) as (tr & Etr). rewrite E2 in Etr. simpl in Etr.
  subst h'. apply in_or_app. left. exact (Hm _ _ _ E).
Qed.

(** One step of an [emits] proof; the events' side conditions are left. *)
Ltac emits_step :=
  lazymatch goal with
  | |- emits _ _ (bind _ _) => apply emits_bind; [ | | intros ? ]
  | |- emits _ _ (emit _) => apply emits_emit
  | |- emits _ _ (call _ _) => apply emits_call
  | |- emits _ _ (ret _) => apply emits_ret
  | |- emits _ _ (lift _) => apply emits_lift
  | |- emits _ _ (if ?b then _ else _) => destruct b
  end.

Ltac unfold_steps :=
  unfold body, build, installAndDeploy, deploy, copyCname, scullyVersion,
    log, exec, exists_p, readFileSync, cp.

(** The history of a run is the history of the [try] block followed by what
    the handler reports. *)
Lemma run_reported (w : World) :
  run w = (fst (body w []) ++ reported (snd (body w [])))%list.
Proof.
  unfold run. destruct (body w []) as [h [a|[message|]]]; simpl;
    [now rewrite app_nil_r | reflexivity | now rewrite app_nil_r].
Qed.

(** A property of every event of the [try] block and of every failure
    report holds for every event of the run. *)
Lemma run_Forall (w : World) (P : event -> Prop) :
  emits P P (body w) -> (forall message, P (SetFailed message)) ->
  Forall P (run w).
Proof.
  intros Hb Hf. rewrite run_reported. destruct (Hb []) as (tr & E & F).
  rewrite E. simpl. apply Forall_app. split.
  - now destruct (snd (body w [])).
  - destruct (snd (body w [])) as [a|[message|]]; repeat constructor. apply Hf.
Qed.

Lemma bind_emit {B : Type} (e : event) (k : unit -> M B) (h : history) :
  bind (emit e) k h = k tt (h ++ [e])%list.
Proof. reflexivity. Qed.

Lemma bind_call {A B : Type} (e : event) (answer : history -> result A)
  (k : A -> M B) (h : history) :
  bind (call e answer) k h =
  match answer (h ++ [e])%list with
  | Ok a => k a (h ++ [e])%list
  | Threw x => ((h ++ [e])%list, Threw x)
  end.
Proof. unfold bind, call. now destruct (answer _). Qed.

(** Runs an [emits] proof to its side conditions on single events. *)
Ltac emits_steps :=
  unfold_steps; cbv zeta;
  repeat (emits_step;
          try match goal with
              | x : bool |- _ => destruct x
              end);
  try (intros ? ?; assumption); try (intros; exact I).

(** Whatever the steps after the guard do, they only append events. *)
Lemma installAndDeploy_extends (w : World) (pm token branch : string) :
  extends (installAndDeploy w pm token branch).
Proof. apply emits_extends. emits_steps. Qed.

(** No report is made before the last step: a [try] block that throws has
    reported nothing. *)
Lemma build_unreported (w : World) (token branch : string) :
  emits unreported any (build w token branch).
Proof. emits_steps. Qed.

Lemma body_unreported (w : World) : emits unreported any (body w).
Proof.
  unfold body. cbv zeta.
  destruct (String.eqb _ ""); [apply emits_emit; exact I|].
  destruct (String.eqb _ _); [emits_steps | apply build_unreported].
Qed.

End TraceFacts.

(** ** The specification of the action *)

Module Spec.
Import JsString Js Action Scenario Trace JsStringFacts TraceFacts.

(** The end-to-end scenario of the specification: no yarn lock file, the
    generator at 0.0.80, no extra arguments, triggered from another branch. *)
Example end_to_end :
  run (calm tokenOnly "refs/heads/dev" false false [] (packageLockOf "0.0.80")) =
  [ Exists "./yarn.lock";
    Log "Installing your site's dependencies using npm.";
    Exec "npm ci" [] None;
    Log "Finished installing dependencies.";
    Log "Ready to build your Scully site!";
    Log "Building with: npm run build ";
    Exec "npm run build " [] None;
    Log "Finished building your site.";
    Log "Determine Scully version from './package-lock.json'.";
    ReadFile "./package-lock.json";
    Log "Scully Version 0.0.80 is used";
    Log "Scully Version is less then '0.0.85', adding '--nw' flag";
    Exec "npm run scully -- --nw " [] None;
    Log "Finished Scullying your site.";
    Exists "./CNAME";
    Log "Ready to deploy your new shiny site!";
    Log "Deploying to repo: octo/site and branch: main";
    Log "You can configure the deploy branch by setting the `deploy-branch` input for this action.";
    Exec "git init" [] STATIC;
    Exec "git config user.name" ["bot"] STATIC;
    Exec "git config user.email" ["bot@users.noreply.github.com"] STATIC;
    Exec "git add" ["."] STATIC;
    Exec "git commit" ["-m"; "deployed via Scully Publish Action 🎩 for abc123"] STATIC;
    Exec "git push" ["-f"; "https://tok@github.com/octo/site.git"; "main:main"] STATIC;
    Log "Finished deploying your site.";
    Log "Enjoy! ✨";
    SetOutput "success" true ].
Proof. reflexivity. Qed.

(** ** Input validation *)



(** ** The early-exit guard *)

(** C1, as stated, fails: the run triggered by the deploy branch itself ends
    without setting the success output. *)
Lemma early_exit_leaves_success_unset :
  ref (context onDeployBranch) =
    "refs/heads/" ++ deployBranch (getInput onDeployBranch "deploy-branch") /\
  ~ In (SetOutput "success" true) (run onDeployBranch).
Proof.
  split; [reflexivity|]. vm_compute.
  intros [H|[H|[]]]; discriminate H.
Qed.

(** C1, amended.  With a non-empty access token and a triggering ref equal to
    [refs/heads/<deployBranch>] (the branch defaulting to ["main"]), the run
    writes its two log lines and ends: no command is executed, no failure is
    reported, and the success output is not set. *)
Theorem early_exit_only_logs (w : World) :
  getInput w "access-token" <> "" ->
  ref (context w) = "refs/heads/" ++ deployBranch (getInput w "deploy-branch") ->
  run w = [ Log ("Triggered by branch used to deploy: " ++ ref (context w) ++ ".");
            Log "Nothing to deploy." ] /\
  Forall isLog (run w).
Proof.
  intros token same.
  assert (E : run w =
    [ Log ("Triggered by branch used to deploy: " ++ ref (context w) ++ ".");
      Log "Nothing to deploy." ]).
  { unfold run, body.
    destruct (String.eqb_spec (getInput w "access-token") "") as [e|_];
      [contradiction|].
    rewrite <- same, String.eqb_refl. reflexivity. }
  split; [exact E|]. rewrite E. repeat constructor.
Qed.

Lemma early_exit_only_logs_witness :
  run onDeployBranch =
    [ Log "Triggered by branch used to deploy: refs/heads/main.";
      Log "Nothing to deploy." ] /\
  Forall isLog (run onDeployBranch).
Proof.
  apply (early_exit_only_logs onDeployBranch); [discriminate | reflexivity].
Defined.

(** The default branch is used exactly for an empty input. *)
Lemma deployBranch_default (input : string) :
  deployBranch input = if String.eqb input "" then "main" else input.
Proof. now destruct input. Qed.

(** ** Argument normalisation *)

Lemma separated_prefix (s : string) : separated s <-> prefix "-- " s = true.
Proof. symmetry. apply prefix_iff. Qed.

(** C2, as stated, fails: ["--foo"] does not start with ["-- "], so it is
    not passed through unchanged. *)
Lemma buildArgs_double_dash_changes : buildArgs "--foo" <> "--foo".
Proof. discriminate. Qed.

(** C2, amended.  ["--foo"] becomes ["-- --foo"], ["foo"] becomes ["-- foo"],
    [""] stays [""]; a build-args value (trimmed) that is not empty is prefixed
    with ["-- "] exactly when it does not already start with ["-- "], and is
    left as it is otherwise. *)
Theorem buildArgs_normalization :
  buildArgs "--foo" = "-- --foo" /\
  buildArgs "foo" = "-- foo" /\
  buildArgs "" = "" /\
  forall input : string,
    (trim input <> "" /\ ~ separated (trim input) /\
     buildArgs input = "-- " ++ trim input) \/
    ((trim input = "" \/ separated (trim input)) /\
     buildArgs input = trim input).
Proof.
  repeat split; try reflexivity. intros input. unfold buildArgs.
  rewrite indexOf_eqb.
  destruct (String.eqb_spec (trim input) "") as [e|ne]; simpl.
  - right. split; [now left | reflexivity].
  - destruct (prefix "-- " (trim input)) eqn:P; simpl.
    + right. split; [right; now apply separated_prefix | reflexivity].
    + left. split; [exact ne | split; [|reflexivity]].
      intros S. apply separated_prefix in S. congruence.
Qed.

(** C6.  ["-- bar"] becomes ["bar"] and ["bar"] stays ["bar"]; a scully-args
    value (trimmed) that starts with ["-- "] loses exactly these three
    characters, and any other value is left as it is.  What [getInput] returns
    is already trimmed, so trimming changes nothing there. *)
Theorem scullyArgs_normalization :
  scullyArgs "-- bar" = "bar" /\
  scullyArgs "bar" = "bar" /\
  (forall input : string,
    (exists r, trim input = "-- " ++ r /\ scullyArgs input = r) \/
    (~ separated (trim input) /\ scullyArgs input = trim input)) /\
  (forall (w : World) (name : string),
    trim (getInput w name) = getInput w name).
Proof.
  repeat split; try reflexivity.
  - intros input. unfold scullyArgs. rewrite indexOf_eqb.
    destruct (prefix "-- " (trim input)) eqn:P.
    + left. apply prefix_iff in P. destruct P as [r P]. exists r.
      split; [exact P|]. rewrite P. apply (slice_app "-- ").
    + right. split; [|reflexivity].
      intros S. apply separated_prefix in S. congruence.
  - intros w name. apply trim_idem.
Qed.

(** ** The legacy no-watch flag *)





(** ** The top-level handler *)

(** C10.  When the [try] block ends by throwing a value that is not an
    [Error], the handler adds nothing: the history of the run is the one the
    block left, with no failure message and no success output in it. *)
Theorem non_error_throw_is_silent (w : World) (h : history) :
  body w [] = (h, Threw NonError) ->
  run w = h /\
  (forall message, ~ In (SetFailed message) (run w)) /\
  (forall name value, ~ In (SetOutput name value) (run w)).
Proof.
  intros E. assert (R : run w = h) by (unfold run; now rewrite E).
  destruct (body_unreported w []) as (tr & Etr & F).
  rewrite E in Etr, F. simpl in Etr, F.
  rewrite R, Etr. rewrite Forall_forall in F.
  split; [reflexivity|]. split; intros; intros Hin; exact (F _ Hin).
Qed.

Lemma non_error_throw_is_silent_witness :
  run (rejecting NonError) =
    [ Exists "./yarn.lock";
      Log "Installing your site's dependencies using npm.";
      Exec "npm ci" [] None ] /\
  (forall message, ~ In (SetFailed message) (run (rejecting NonError))) /\
  (forall name value, ~ In (SetOutput name value) (run (rejecting NonError))).
Proof.
  apply (non_error_throw_is_silent (rejecting NonError)). reflexivity.
Defined.

(** An [Error], in contrast, is reported with its message. *)
Example error_throw_is_reported :
  run (rejecting (ErrorObj "The process 'npm' failed with exit code 1")) =
  [ Exists "./yarn.lock";
    Log "Installing your site's dependencies using npm.";
    Exec "npm ci" [] None;
    SetFailed "The process 'npm' failed with exit code 1" ].
Proof. reflexivity. Qed.

(** ** The push *)

Lemma body_pushes (w : World) : emits (pushes w) (pushes w) (body w).
Proof.
  unfold body. cbv zeta.
  destruct (String.eqb _ ""); [apply emits_emit; exact I|].
  destruct (String.eqb _ _); emits_steps; reflexivity.
Qed.

Lemma deploy_reaches_push (w : World) :
  reaches (push w)
    (deploy w (getInput w "access-token")
       (deployBranch (getInput w "deploy-branch"))).
Proof.
  unfold deploy. cbv zeta. do 8 (apply reaches_bind_r; intros _).
  apply reaches_bind_l; [apply reaches_call|].
  intros _. apply emits_extends. emits_steps.
Qed.

Lemma build_reaches_push (w : World) :
  reaches (push w)
    (build w (getInput w "access-token")
       (deployBranch (getInput w "deploy-branch"))).
Proof.
  unfold build. apply reaches_bind_r. intros yarnLock.
  unfold installAndDeploy. cbv zeta.
  do 7 (apply reaches_bind_r; intros _). apply reaches_bind_r; intros version.
  apply reaches_bind_r; intros _. apply reaches_bind_r; intros flagged.
  do 4 (apply reaches_bind_r; intros _).
  apply reaches_bind_l; [apply deploy_reaches_push|].
  intros _. apply emits_extends. emits_steps.
Qed.

(** C8.  The push URL is [https://<token>@github.com/<owner>/<repo>.git]; every
    [git push] of a run is the forced push of [main:<deployBranch>] to that
    URL, run in the output directory; and a run that sets the success output
    has made this push. *)
Theorem push_is_forced_to_deploy_branch (w : World) :
  let token := getInput w "access-token" in
  let branch := deployBranch (getInput w "deploy-branch") in
  let url := repoURL token (owner (context w)) (repo (context w)) in
  url = "https://" ++ token ++ "@github.com/" ++ owner (context w) ++ "/" ++
        repo (context w) ++ ".git" /\
  (forall args cwd, In (Exec "git push" args cwd) (run w) ->
     args = ["-f"; url; "main:" ++ branch] /\ cwd = Some "./dist/static") /\
  (In (SetOutput "success" true) (run w) ->
   In (Exec "git push" ["-f"; url; "main:" ++ branch] (Some "./dist/static"))
      (run w)).
Proof.
  intros token branch url. split; [|split].
  - unfold url, repoURL. now rewrite !append_assoc.
  - intros args cwd Hin.
    assert (F : Forall (pushes w) (run w))
      by (apply run_Forall; [apply body_pushes | intros; exact I]).
    rewrite Forall_forall in F. specialize (F _ Hin). simpl in F.
    unfold push in F. injection F as -> ->. now split.
  - change (Exec "git push" ["-f"; url; "main:" ++ branch] (Some "./dist/static"))
      with (push w).
    subst token branch. clear url.
    rewrite run_reported. unfold body. cbv zeta.
    destruct (String.eqb _ ""); [intros [S|[]]; discriminate S|].
    destruct (String.eqb _ _); [intros [S|[S|[]]]; discriminate S|].
    destruct (build_unreported w (getInput w "access-token")
                (deployBranch (getInput w "deploy-branch")) [])
      as (tr & Etr & F).
    pose proof (build_reaches_push w []) as R.
    destruct (build w _ _ []) as [h [a|e]]; simpl in *.
    + intros _. apply in_or_app. left. exact (R _ _ eq_refl).
    + subst h. intros S. apply in_app_or in S. destruct S as [S|S].
      * rewrite Forall_forall in F. destruct (F _ S).
      * destruct e; [destruct S as [S|[]]; discriminate S | destruct S].
Qed.

Lemma push_is_forced_to_deploy_branch_witness :
  In (Exec "git push" ["-f"; "https://tok@github.com/octo/site.git"; "main:main"]
        (Some "./dist/static"))
     (run (calm tokenOnly "refs/heads/dev" false false []
             (packageLockOf "0.0.80"))).
Proof.
  apply (push_is_forced_to_deploy_branch
           (calm tokenOnly "refs/heads/dev" false false []
              (packageLockOf "0.0.80"))).
  vm_compute. repeat (try (left; reflexivity); right).
Defined.

(** ** The custom-domain file *)




(** ** The package manager *)

Lemma installAndDeploy_chosen (w : World) (yarnLock : bool)
  (token branch : string) :
  emits (chosen yarnLock) (chosen yarnLock)
    (installAndDeploy w (pkgManager yarnLock) token branch).
Proof.
  destruct yarnLock; unfold installAndDeploy, scullyVersion;
    [ change (String.eqb (pkgManager true) "yarn") with true
    | change (String.eqb (pkgManager false) "yarn") with false ];
    cbv iota; emits_steps; simpl; auto; discriminate.
Qed.

(** The first two events after the probe: the log line naming the package
    manager and its install command. *)
Lemma installAndDeploy_starts (w : World) (pm token branch : string)
  (h : history) :
  exists tr,
    fst (installAndDeploy w pm token branch h) =
    (h ++ Log ("Installing your site's dependencies using " ++ pm ++ ".")
       :: Exec (pm ++ " " ++ installCmd pm) [] None :: tr)%list.
Proof.
  unfold installAndDeploy. cbv zeta. unfold log at 1, exec at 1.
  rewrite bind_emit, bind_call.
  destruct (exec_ w _) as [[]|e].
  - match goal with
    | |- context [bind ?m ?k ?h0] =>
        assert (X : extends (bind m k)) by (apply emits_extends; emits_steps);
        destruct (X h0) as (tr & E)
    end.
    exists tr. rewrite E. now rewrite <- !app_assoc.
  - exists []. simpl. now rewrite <- !app_assoc.
Qed.

(** C7.  A run that gets past the guards probes [./yarn.lock] first and never
    again.  When the probe answers, yarn is chosen for "present" and npm for
    "absent"; the install command is [yarn install --frozen-lockfile] or
    [npm ci]; and everything later uses this choice: every package-manager
    command is a command of the chosen one, the lock file read is the chosen
    one's, and all other commands are git commands. *)
Theorem package_manager_chosen_once (w : World) :
  getInput w "access-token" <> "" ->
  ref (context w) <>
    "refs/heads/" ++ deployBranch (getInput w "deploy-branch") ->
  exists rest,
    run w = Exists "./yarn.lock" :: rest /\
    ~ In (Exists "./yarn.lock") rest /\
    forall yarnLock, exists_ w [Exists "./yarn.lock"] = Ok yarnLock ->
      pkgManager yarnLock = (if yarnLock then "yarn" else "npm") /\
      installCmd (pkgManager yarnLock) =
        (if yarnLock then "install --frozen-lockfile" else "ci") /\
      (exists rest',
         rest =
         Log ("Installing your site's dependencies using " ++
              (if yarnLock then "yarn" else "npm") ++ ".")
         :: Exec (if yarnLock then "yarn install --frozen-lockfile"
                  else "npm ci") [] None
         :: rest') /\
      Forall (chosen yarnLock) rest.
Proof.
  intros token other. rewrite run_reported. unfold body. cbv zeta.
  destruct (String.eqb_spec (getInput w "access-token") "") as [|_];
    [contradiction|].
  destruct (String.eqb_spec (ref (context w))
              ("refs/heads/" ++ deployBranch (getInput w "deploy-branch")))
    as [|_]; [contradiction|].
  unfold build, exists_p. rewrite bind_call.
  change (([] : history) ++ [Exists "./yarn.lock"])%list
    with [Exists "./yarn.lock"].
  destruct (exists_ w [Exists "./yarn.lock"]) as [yarnLock|e].
  - destruct (installAndDeploy_chosen w yarnLock (getInput w "access-token")
                (deployBranch (getInput w "deploy-branch"))
                [Exists "./yarn.lock"]) as (tr & E & F).
    destruct (installAndDeploy_starts w (pkgManager yarnLock)
                (getInput w "access-token")
                (deployBranch (getInput w "deploy-branch"))
                [Exists "./yarn.lock"]) as (tr' & E').
    rewrite E in E'. apply app_inv_head in E'.
    assert (G : Forall (chosen yarnLock)
                  (tr ++ reported (snd (installAndDeploy w (pkgManager yarnLock)
                     (getInput w "access-token")
                     (deployBranch (getInput w "deploy-branch"))
                     [Exists "./yarn.lock"])))%list).
    { apply Forall_app. split.
      - now destruct (snd _).
      - destruct (snd _) as [a|[message|]]; repeat constructor. }
    exists (tr ++ reported (snd (installAndDeploy w (pkgManager yarnLock)
                     (getInput w "access-token")
                     (deployBranch (getInput w "deploy-branch"))
                     [Exists "./yarn.lock"])))%list.
    rewrite E. split; [reflexivity|]. split.
    + intros Hin. rewrite Forall_forall in G. now apply (G _ Hin).
    + intros b Eb. injection Eb as <-.
      split; [now destruct yarnLock|]. split; [now destruct yarnLock|].
      split; [|exact G].
      rewrite E'. destruct yarnLock; eexists; reflexivity.
  - exists (reported (@Threw unit e)). split; [reflexivity|]. split.
    + destruct e; simpl; [intros [S|[]]; discriminate S | intros []].
    + discriminate.
Qed.

Lemma package_manager_chosen_once_witness :
  exists rest,
    run (calm tokenOnly "refs/heads/dev" true false withPlugin Null) =
      Exists "./yarn.lock" :: rest /\
    ~ In (Exists "./yarn.lock") rest /\
    forall yarnLock, Ok true = Ok yarnLock ->
      pkgManager yarnLock = (if yarnLock then "yarn" else "npm") /\
      installCmd (pkgManager yarnLock) =
        (if yarnLock then "install --frozen-lockfile" else "ci") /\
      (exists rest',
         rest =
         Log ("Installing your site's dependencies using " ++
              (if yarnLock then "yarn" else "npm") ++ ".")
         :: Exec (if yarnLock then "yarn install --frozen-lockfile"
                  else "npm ci") [] None
         :: rest') /\
      Forall (chosen yarnLock) rest.
Proof.
  apply (package_manager_chosen_once
           (calm tokenOnly "refs/heads/dev" true false withPlugin Null));
    discriminate.
Defined.

(** ** The generator version *)

(** The npm branch reads the entry named exactly [@scullyio/scully]. *)
Lemma npm_lookup_exact (dependencies : list (string * value)) :
  npmScullyVersion (Obj [("dependencies", Obj dependencies)]) =
  get (lookup "@scullyio/scully" dependencies) "version".
Proof. reflexivity. Qed.

(** An entry that is missing makes either branch throw a [TypeError], an
    [Error] without a message of the action's own. *)
Lemma lookup_throws_errors :
  (forall object e, yarnScullyVersion object = Threw e -> isError e = true) /\
  (forall parsed e, npmScullyVersion parsed = Threw e -> isError e = true).
Proof.
  split.
  - intros object e. unfold yarnScullyVersion.
    destruct (lookup _ object); simpl; intros E; inversion E; reflexivity.
  - intros parsed e. unfold npmScullyVersion.
    destruct parsed as [| | | | | |props]; simpl; intros E;
      try (inversion E; reflexivity).
    destruct (lookup "dependencies" props) as [| | | | | |deps]; simpl in E;
      try (inversion E; reflexivity).
    destruct (lookup SCULLY deps); simpl in E; inversion E; reflexivity.
Qed.

Example npm_entry_missing :
  npmScullyVersion (Obj [("dependencies", Obj [])]) =
  Threw (ErrorObj "Cannot read property 'version' of undefined").
Proof. reflexivity. Qed.

Example yarn_entry_missing :
  yarnScullyVersion [("typescript@^3.8.3", Obj [("version", Str "3.8.3")])] =
  Threw (ErrorObj "Cannot read property 'version' of undefined").
Proof. reflexivity. Qed.

(** C3.  The yarn branch does not match the package name exactly: it takes
    the first key that contains [@scullyio/scully].  With a plugin package of
    the generator in the lock file, whose key sorts first, the version
    resolved is the plugin's 1.0.0 and not the generator's 0.0.85, and the
    generator then runs without the flag that its version 0.0.85 asks for. *)
Theorem yarn_lookup_takes_first_containing_key :
  yarnScullyVersion withPlugin = Ok (Str "1.0.0") /\
  get (lookup "@scullyio/scully@^0.0.85" withPlugin) "version" =
    Ok (Str "0.0.85") /\
  nwFlag (Str "0.0.85") "" = Ok (true, "--nw ") /\
  In (Exec "yarn run scully -- " [] None)
     (run (calm tokenOnly "refs/heads/dev" true false withPlugin Null)) /\
  ~ In (Exec "yarn run scully -- --nw " [] None)
      (run (calm tokenOnly "refs/heads/dev" true false withPlugin Null)).
Proof.
  repeat split; try reflexivity.
  - vm_compute. repeat (try (left; reflexivity); right).
  - vm_compute. intros H.
    repeat (destruct H as [H|H]; [discriminate H|]). exact H.
Qed.

End Spec.

(** ** Further behaviour of the action *)

Module Behaviour.
Import JsString Js Action Scenario Trace JsStringFacts TraceFacts.

(** *** The deploy branch *)



(** *** The build arguments *)






(** *** The version lookup *)

Lemma test_prefix (literal rest : string) : test literal (literal ++ rest) = true.
Proof.
  unfold test. assert (E : indexOf literal (literal ++ rest) = 0%Z)
    by (apply indexOf_zero, prefix_app).
  now rewrite E.
Qed.

Lemma filter_none (f : string -> bool) (l : list string) :
  (forall k, In k l -> f k = false) -> filter f l = [].
Proof.
  induction l as [|k l IH]; intros H; simpl; [reflexivity|].
  rewrite (H k (or_introl eq_refl)). apply IH. intros; apply H; now right.
Qed.

Lemma lookup_skip (key : string) (v : value)
  (before after : list (string * value)) :
  ~ In key (keys before) ->
  lookup key (before ++ (key, v) :: after) = v.
Proof.
  induction before as [|[k' v'] before IH]; intros N; simpl.
  - now rewrite String.eqb_refl.
  - destruct (String.eqb_spec key k') as [->|_].
    + destruct N. now left.
    + apply IH. intros I. apply N. now right.
Qed.

(** The yarn branch (lines 62-66) resolves the generator's own entry, keyed
    [@scullyio/scully@<range>], whenever no key before it contains the
    package name: the version read is that entry's. *)
Theorem yarn_lookup_generator_entry (before after : list (string * value))
  (range : string) (entry : value) :
  (forall k, In k (keys before) -> test "@scullyio/scully" k = false) ->
  yarnScullyVersion
    (before ++ ("@scullyio/scully" ++ "@" ++ range, entry) :: after) =
  get entry "version".
Proof.
  intros H.
  pose proof (test_prefix "@scullyio/scully" ("@" ++ range)) as K.
  remember ("@scullyio/scully" ++ "@" ++ range) as key eqn:Ekey. clear Ekey.
  unfold yarnScullyVersion, keys, SCULLY. rewrite map_app, filter_app.
  fold (keys before). rewrite (filter_none _ _ H).
  cbn [map filter app fst]. rewrite K.
  rewrite lookup_skip; [reflexivity|].
  intros I. apply H in I. congruence.
Qed.

Lemma yarn_lookup_generator_entry_witness :
  yarnScullyVersion
    ([("@angular/core@~9.1.0", Obj [("version", Str "9.1.0")])] ++
     ("@scullyio/scully" ++ "@" ++ "^0.0.85", Obj [("version", Str "0.0.85")])
     :: [("@scullyio/scully-plugin-x@^1.0.0", Obj [("version", Str "1.0.0")])]) =
  get (Obj [("version", Str "0.0.85")]) "version".
Proof.
  apply yarn_lookup_generator_entry.
  intros k [<-|[]]. reflexivity.
Defined.

(** When the entry is missing (lines 66 and 71) the lookup throws an [Error]:
    in the yarn branch when no key contains the package name and no entry is
    keyed ["undefined"], the key the empty filter result turns into; in the
    npm branch when the dependencies object has no property of the package's
    name. *)
Theorem missing_entry_throws :
  (forall object,
     (forall k, In k (keys object) -> test "@scullyio/scully" k = false) ->
     yarnScullyVersion object = get (lookup "undefined" object) "version" /\
     (lookup "undefined" object = Undefined ->
      exists message, yarnScullyVersion object = Threw (ErrorObj message))) /\
  (forall props dependencies,
     lookup "dependencies" props = Obj dependencies ->
     lookup "@scullyio/scully" dependencies = Undefined ->
     exists message, npmScullyVersion (Obj props) = Threw (ErrorObj message)).
Proof.
  split.
  - intros object H.
    assert (E : yarnScullyVersion object =
                get (lookup "undefined" object) "version").
    { unfold yarnScullyVersion, SCULLY. now rewrite (filter_none _ _ H). }
    split; [exact E|]. intros U. rewrite E, U. simpl. eauto.
  - intros props dependencies D U. unfold npmScullyVersion, SCULLY. simpl.
    rewrite D. simpl. rewrite U. simpl. eauto.
Qed.

Lemma missing_entry_throws_witness :
  (exists message,
     yarnScullyVersion [("typescript@^3.8.3", Obj [("version", Str "3.8.3")])] =
     Threw (ErrorObj message)) /\
  (exists message,
     npmScullyVersion
       (Obj [("lockfileVersion", Num "1");
             ("dependencies", Obj [("typescript", Obj [("version", Str "3.8.3")])])]) =
     Threw (ErrorObj message)).
Proof.
  destruct missing_entry_throws as [yarn npm]. split.
  - apply (yarn [("typescript@^3.8.3", Obj [("version", Str "3.8.3")])]).
    + intros k [<-|[]]. reflexivity.
    + reflexivity.
  - apply (npm _ [("typescript", Obj [("version", Str "3.8.3")])]);
      reflexivity.
Defined.

(** *** How a run ends *)

Lemma finishes_emit (N : event -> Prop) (e : event) : finishes N e (emit e).
Proof. intros h. exists []. split; [constructor | reflexivity]. Qed.

Lemma finishes_bind {A B : Type} (N : event -> Prop) (e : event)
  (m : M A) (f : A -> M B) :
  emits N N m -> (forall a, finishes N e (f a)) -> finishes N e (bind m f).
Proof.
  intros Hm Hf h. destruct (Hm h) as (tr1 & E1 & F1). unfold bind.
  destruct (m h) as [h1 [a|x]]; simpl in E1, F1; subst h1.
  - destruct (Hf a (h ++ tr1)%list) as (tr2 & F2 & E2).
    exists (tr1 ++ tr2)%list. split; [now apply Forall_app|].
    destruct (snd (f a _)); rewrite E2; now rewrite <- !app_assoc.
  - exists tr1. split; [exact F1 | reflexivity].
Qed.

Ltac finishes_steps :=
  unfold_steps; cbv zeta;
  repeat (apply finishes_bind; [emits_steps | intros ?]);
  apply finishes_emit.

(** The steps after the guards report nothing until the very end, where the
    success output is set. *)
Lemma build_finishes (w : World) (token branch : string) :
  finishes unreported (SetOutput "success" true) (build w token branch).
Proof. finishes_steps. Qed.

(** Every run (lines 13-116) reports at most once, and the report is its last
    event: the history is a sequence of events that are neither [setFailed]
    nor [setOutput], followed by nothing, by the success output, or by one
    failure message.  So no run both fails and sets the success output, and
    nothing is executed after either. *)
Theorem report_is_last (w : World) :
  exists tr,
    Forall unreported tr /\
    (run w = tr \/
     run w = (tr ++ [SetOutput "success" true])%list \/
     exists message, run w = (tr ++ [SetFailed message])%list).
Proof.
  rewrite run_reported. unfold body. cbv zeta.
  destruct (String.eqb _ "").
  { exists []. split; [constructor|]. right. right. eexists. reflexivity. }
  destruct (String.eqb _ _).
  { eexists. split; [|left; reflexivity]. repeat constructor. }
  destruct (build_finishes w (getInput w "access-token")
              (deployBranch (getInput w "deploy-branch")) [])
    as (tr & F & E).
  exists tr. split; [exact F|].
  destruct (snd (build w _ _ [])) as [a|[message|]]; rewrite E; simpl.
  - right. left. now rewrite app_nil_r.
  - right. right. now exists message.
  - left. now rewrite app_nil_r.
Qed.

Section Raises.

Context {A : Type} (P : thrown -> Prop).

Lemma raises_ret (a : A) : raises P (ret a).
Proof. intros h x. discriminate. Qed.

Lemma raises_lift (r : result A) :
  (forall x, r = Threw x -> P x) -> raises P (lift r).
Proof. intros H h x. apply H. Qed.

Lemma raises_call (e : event) (answer : history -> result A) :
  (forall h x, answer h = Threw x -> P x) -> raises P (call e answer).
Proof. intros H h x. apply H. Qed.

End Raises.

Lemma raises_emit (P : thrown -> Prop) (e : event) : raises P (emit e).
Proof. intros h x. discriminate. Qed.

Lemma raises_bind {A B : Type} (P : thrown -> Prop) (m : M A) (f : A -> M B) :
  raises P m -> (forall a, raises P (f a)) -> raises P (bind m f).
Proof.
  intros Hm Hf h x. unfold bind. destruct (m h) as [h1 [a|y]] eqn:E.
  - apply Hf.
  - simpl. intros X. injection X as <-. apply (Hm h). now rewrite E.
Qed.

(** [semver] rejects a version with a [TypeError]. *)
Lemma nwFlag_throws_errors (version : value) (args : string) (x : thrown) :
  nwFlag version args = Threw x -> isError x = true.
Proof.
  assert (C : forall v y, Semver.construct v = Threw y -> isError y = true).
  { intros v y. unfold Semver.construct.
    destruct v; try (intros E; injection E as <-; reflexivity).
    repeat match goal with
           | |- context [if ?c then _ else _] => destruct c
           | |- context [match Semver.parse ?s with _ => _ end] =>
               destruct (Semver.parse s)
           end;
      intros E; try discriminate E; injection E as <-; reflexivity. }
  unfold nwFlag, Semver.lte.
  destruct (Semver.construct version) eqn:E1.
  - destruct (Semver.construct (Str "0.0.85")) eqn:E2.
    + destruct (match Semver.compare _ _ with Gt => false | _ => true end);
        discriminate.
    + intros E. injection E as <-. exact (C _ _ E2).
  - intros E. injection E as <-. exact (C _ _ E1).
Qed.

Ltac raises_steps :=
  unfold_steps; cbv zeta;
  repeat lazymatch goal with
         | |- raises _ (bind _ _) => apply raises_bind; [ | intros ? ]
         | |- raises _ (emit _) => apply raises_emit
         | |- raises _ (ret _) => apply raises_ret
         | |- raises _ (call _ _) => apply raises_call
         | |- raises _ (lift _) => apply raises_lift
         | |- raises _ (if ?b then _ else _) => destruct b
         end.

(** In a polite world the steps after the guards throw [Error]s only. *)
Lemma build_raises_errors (w : World) (token branch : string) :
  polite w -> raises (fun x => isError x = true) (build w token branch).
Proof.
  intros (Hexists & Hexec & Hread & Hcp & Hyarn & Hjson).
  destruct Spec.lookup_throws_errors as [Ly Ln].
  raises_steps; eauto using nwFlag_throws_errors.
Qed.

(** When the collaborators throw [Error]s only, a run that gets past the two
    guards (lines 31-116) ends in exactly one of two ways: its last event is
    the success output or it is a failure message, and nothing before it is a
    report.  The action's own lookups and the version comparison throw
    [Error]s only, so the silent ending needs a collaborator that throws
    something else. *)
Theorem polite_run_reports (w : World) :
  polite w ->
  getInput w "access-token" <> "" ->
  ref (context w) <>
    "refs/heads/" ++ deployBranch (getInput w "deploy-branch") ->
  exists tr,
    Forall unreported tr /\
    (run w = (tr ++ [SetOutput "success" true])%list \/
     exists message, run w = (tr ++ [SetFailed message])%list).
Proof.
  intros polite token other. rewrite run_reported. unfold body. cbv zeta.
  destruct (String.eqb_spec (getInput w "access-token") "") as [|_];
    [contradiction|].
  destruct (String.eqb_spec (ref (context w))
              ("refs/heads/" ++ deployBranch (getInput w "deploy-branch")))
    as [|_]; [contradiction|].
  destruct (build_finishes w (getInput w "access-token")
              (deployBranch (getInput w "deploy-branch")) [])
    as (tr & F & E).
  pose proof (build_raises_errors w (getInput w "access-token")
                (deployBranch (getInput w "deploy-branch")) polite []) as R.
  exists tr. split; [exact F|].
  destruct (snd (build w _ _ [])) as [a|[message|]]; rewrite E; simpl.
  - left. now rewrite app_nil_r.
  - right. now exists message.
  - discriminate (R NonError eq_refl).
Qed.

Lemma polite_run_reports_witness :
  exists tr,
    Forall unreported tr /\
    (run (rejecting (ErrorObj "exit code 1")) =
       (tr ++ [SetOutput "success" true])%list \/
     exists message,
       run (rejecting (ErrorObj "exit code 1")) =
       (tr ++ [SetFailed message])%list).
Proof.
  apply (polite_run_reports (rejecting (ErrorObj "exit code 1")));
    [|discriminate|discriminate].
  repeat split; simpl; intros; try discriminate.
  injection H as <-. reflexivity.
Defined.

(** *** What a successful run has done *)

Lemma bind_assoc {A B C : Type} (m : M A) (f : A -> M B) (g : B -> M C)
  (h : history) :
  bind (bind m f) g h = bind m (fun a => bind (f a) g) h.
Proof. unfold bind. now destruct (m h) as [h1 [a|x]]. Qed.

Lemma bind_lift {A B : Type} (r : result A) (k : A -> M B) (h : history) :
  bind (lift r) k h =
  match r with
  | Ok a => k a h
  | Threw x => (h, Threw x)
  end.
Proof. now destruct r. Qed.

Lemma bind_ret {A B : Type} (a : A) (k : A -> M B) (h : history) :
  bind (ret a) k h = k a h.
Proof. reflexivity. Qed.

(** The decision and the arguments that [nwFlag] returns belong together. *)
Lemma nwFlag_args (version : value) (args : string) (nw : bool)
  (final : string) :
  nwFlag version args = Ok (nw, final) ->
  final = (if nw then "--nw " else "") ++ args.
Proof.
  unfold nwFlag. destruct (Semver.lte _ _) as [[|]|]; intros E;
    try discriminate E; now injection E as <- <-.
Qed.











(** *** The first failure ends the run *)

Lemma exists_last_or_nil {A : Type} (l : list A) :
  l = [] \/ exists l' a, l = (l' ++ [a])%list.
Proof.
  induction l as [|a l _] using rev_ind; [now left | right; now exists l, a].
Qed.

Lemma sound_nil (w : World) : sound w [].
Proof.
  intros p s E. symmetry in E. apply app_eq_nil in E. destruct E as [-> _].
  reflexivity.
Qed.

Lemma sound_snoc (w : World) (h : history) (e : event) :
  sound w h -> thrownAt w (h ++ [e])%list = None -> sound w (h ++ [e])%list.
Proof.
  intros S T p s E. destruct (exists_last_or_nil s) as [->|(s' & e' & ->)].
  - rewrite app_nil_r in E. now subst p.
  - rewrite app_assoc in E. apply app_inj_tail in E. destruct E as [E _].
    exact (S _ _ E).
Qed.

Lemma thrownAt_note (w : World) (h : history) (e : event) :
  isNote e -> thrownAt w (h ++ [e])%list = None.
Proof. intros N. unfold thrownAt. rewrite last_last. now destruct e. Qed.

Lemma careful_ret {A : Type} (w : World) (a : A) : careful w (ret a).
Proof. intros h S. exact S. Qed.

Lemma careful_lift {A : Type} (w : World) (r : result A) : careful w (lift r).
Proof. intros h S. destruct r; simpl; [exact S | now left]. Qed.

Lemma careful_emit (w : World) (e : event) : isNote e -> careful w (emit e).
Proof. intros N h S. simpl. apply sound_snoc; [exact S | now apply thrownAt_note]. Qed.

Lemma careful_call {A : Type} (w : World) (e : event)
  (answer : history -> result A) :
  (forall h, thrownAt w (h ++ [e])%list = thrownBy (answer (h ++ [e])%list)) ->
  careful w (call e answer).
Proof.
  intros T h S. unfold call. simpl. specialize (T h).
  destruct (answer (h ++ [e])%list) as [a|x]; simpl in T.
  - now apply sound_snoc.
  - right. now exists h, e.
Qed.

Lemma careful_bind {A B : Type} (w : World) (m : M A) (f : A -> M B) :
  careful w m -> (forall a, careful w (f a)) -> careful w (bind m f).
Proof.
  intros Hm Hf h S. specialize (Hm h S). unfold bind.
  destruct (m h) as [h1 [a|x]]; simpl in Hm.
  - apply Hf, Hm.
  - exact Hm.
Qed.

Ltac careful_steps :=
  unfold_steps; cbv zeta;
  repeat lazymatch goal with
         | |- careful _ (bind _ _) => apply careful_bind; [ | intros ? ]
         | |- careful _ (emit _) => apply careful_emit; exact I
         | |- careful _ (ret _) => apply careful_ret
         | |- careful _ (lift _) => apply careful_lift
         | |- careful _ (call _ _) =>
             apply careful_call; intros ?; unfold thrownAt;
             rewrite last_last; reflexivity
         | |- careful _ (if ?b then _ else _) => destruct b
         end.

Lemma body_careful (w : World) : careful w (body w).
Proof.
  unfold body. cbv zeta.
  destruct (String.eqb _ ""); [apply careful_emit; exact I|].
  destruct (String.eqb _ _); careful_steps.
Qed.

(** When a probe, a command, a file read or a copy throws, the run
    (lines 13-116) does nothing after it but report what was thrown: the
    failure message of an [Error], nothing for another value.  No later step
    runs and nothing is retried. *)
Theorem failed_call_ends_run (w : World) (before after : history)
  (c : event) (x : thrown) :
  run w = (before ++ c :: after)%list ->
  thrownAt w (before ++ [c])%list = Some x ->
  after = reported (@Threw unit x).
Proof.
  rewrite run_reported. intros R T.
  pose proof (body_careful w [] (sound_nil w)) as C.
  destruct (body w []) as [h r]. simpl in R, C.
  change (before ++ c :: after)%list with (before ++ [c] ++ after)%list in R.
  rewrite app_assoc in R. symmetry in R.
  apply app_eq_app in R. destruct R as (l & [[E1 E2]|[E1 E2]]).
  - (* [c] would lie in the report *)
    destruct l as [|e l].
    + rewrite app_nil_r in E1. simpl in E2. subst after.
      assert (P : sound w h -> False).
      { intros S. rewrite (S (before ++ [c])%list [])  in T;
          [discriminate T | now rewrite app_nil_r]. }
      destruct r as [a|y]; [now destruct (P C)|].
      destruct C as [S|(p & c' & Eh & Sp & Th)]; [now destruct (P S)|].
      rewrite <- E1, T in Th. now injection Th as ->.
    + destruct r as [a|[message|]]; simpl in E2; try discriminate E2.
      destruct l; [|destruct l; discriminate E2].
      simpl in E2. injection E2 as <- <-.
      apply app_inj_tail in E1. destruct E1 as [_ ->].
      rewrite thrownAt_note in T; [discriminate T | exact I].
  - (* the history of the block reaches beyond [c] *)
    assert (P : sound w h -> False).
    { intros S. rewrite (S _ _ E1) in T. discriminate T. }
    destruct r as [a|y]; [now destruct (P C)|].
    destruct C as [S|(p & c' & Eh & Sp & Th)]; [now destruct (P S)|].
    destruct (exists_last_or_nil l) as [->|(l' & e' & ->)].
    + rewrite app_nil_r in E1. subst h. rewrite E2.
      rewrite T in Th. now injection Th as ->.
    + rewrite E1, app_assoc in Eh. apply app_inj_tail in Eh.
      destruct Eh as [Eh _]. symmetry in Eh. rewrite (Sp _ _ Eh) in T.
      discriminate T.
Qed.

Lemma failed_call_ends_run_witness :
  ([SetFailed "exit code 1"] : history) =
  reported (@Threw unit (ErrorObj "exit code 1")).
Proof.
  apply (failed_call_ends_run (rejecting (ErrorObj "exit code 1"))
           [ Exists "./yarn.lock";
             Log "Installing your site's dependencies using npm." ]
           [SetFailed "exit code 1"] (Exec "npm ci" [] None)
           (ErrorObj "exit code 1")); reflexivity.
Defined.

(** *** Where the access token goes *)

Lemma alike_snoc (h1 h2 : history) (e1 e2 : event) :
  alike h1 h2 -> redact e1 = redact e2 ->
  alike (h1 ++ [e1])%list (h2 ++ [e2])%list.
Proof. unfold alike. intros H E. rewrite !map_app. simpl. now rewrite H, E. Qed.

Lemma agree_ret {A : Type} (a : A) : agree (ret a) (ret a).
Proof. intros h1 h2 H. now split. Qed.

Lemma agree_lift {A : Type} (r1 r2 : result A) :
  r1 = r2 -> agree (lift r1) (lift r2).
Proof. intros -> h1 h2 H. now split. Qed.

Lemma agree_emit (e1 e2 : event) :
  redact e1 = redact e2 -> agree (emit e1) (emit e2).
Proof. intros E h1 h2 H. split; [now apply alike_snoc | reflexivity]. Qed.

Lemma agree_call {A : Type} (e1 e2 : event)
  (answer1 answer2 : history -> result A) :
  redact e1 = redact e2 ->
  (forall h1 h2, alike h1 h2 -> answer1 h1 = answer2 h2) ->
  agree (call e1 answer1) (call e2 answer2).
Proof.
  intros E Ha h1 h2 H. pose proof (alike_snoc _ _ _ _ H E) as H'.
  split; [exact H' | exact (Ha _ _ H')].
Qed.

Lemma agree_bind {A B : Type} (m1 m2 : M A) (f1 f2 : A -> M B) :
  agree m1 m2 -> (forall a, agree (f1 a) (f2 a)) ->
  agree (bind m1 f1) (bind m2 f2).
Proof.
  intros Hm Hf h1 h2 H. destruct (Hm h1 h2 H) as [H' R]. unfold bind.
  destruct (m1 h1) as [k1 r1], (m2 h2) as [k2 r2]. simpl in H', R. subst r2.
  destruct r1 as [a|x]; [now apply Hf | now split].
Qed.

Ltac agree_steps :=
  repeat lazymatch goal with
         | |- agree (bind _ _) (bind _ _) => apply agree_bind; [ | intros ? ]
         | |- agree (emit _) (emit _) => apply agree_emit
         | |- agree (ret _) (ret _) => apply agree_ret
         | |- agree (lift _) (lift _) => apply agree_lift
         | |- agree (call _ _) (call _ _) => apply agree_call
         | |- agree (if ?b then _ else _) (if ?b then _ else _) => destruct b
         end.

(** The steps after the guards agree for two tokens. *)
Lemma build_agrees (w1 w2 : World) (token1 token2 branch : string) :
  sameButToken w1 w2 ->
  agree (build w1 token1 branch) (build w2 token2 branch).
Proof.
  intros (Hin & Hctx & Hexists & Hexec & Hread & Hcp & Hyarn & Hjson).
  unfold_steps. unfold getInput. cbv zeta.
  rewrite (Hin "build-args"), (Hin "scully-args"), Hctx by discriminate.
  agree_steps; try reflexivity; auto.
Qed.

(** The access token reaches nothing but the arguments of [git push]
    (lines 14, 92 and 107).  Two runs with different non-blank tokens, in
    worlds that are otherwise the same, have the same history of log lines,
    probes, reads, copies, commands and reports, apart from those arguments:
    no log line and no other command carries the token. *)
Theorem token_only_in_push (w1 w2 : World) :
  sameButToken w1 w2 ->
  getInput w1 "access-token" <> "" ->
  getInput w2 "access-token" <> "" ->
  map redact (run w1) = map redact (run w2).
Proof.
  intros same token1 token2.
  pose proof same as (Hin & Hctx & _).
  rewrite !run_reported. unfold body. cbv zeta.
  destruct (String.eqb_spec (getInput w1 "access-token") "") as [|_];
    [contradiction|].
  destruct (String.eqb_spec (getInput w2 "access-token") "") as [|_];
    [contradiction|].
  assert (Eb : getInput w1 "deploy-branch" = getInput w2 "deploy-branch")
    by (unfold getInput; now rewrite (Hin "deploy-branch")).
  rewrite Eb, Hctx.
  destruct (String.eqb _ _); [reflexivity|].
  destruct (build_agrees w1 w2 (getInput w1 "access-token")
              (getInput w2 "access-token")
              (deployBranch (getInput w2 "deploy-branch")) same [] []
              eq_refl) as [H R].
  rewrite !map_app, H, R. reflexivity.
Qed.

Lemma token_only_in_push_witness :
  map redact (run (steady "tok")) = map redact (run (steady "other")).
Proof.
  apply token_only_in_push; [|discriminate|discriminate].
  repeat split; simpl; try reflexivity.
  intros name N.
  destruct (String.eqb_spec name "access-token"); [contradiction|reflexivity].
Defined.

(** *** The order of the steps *)

(** How a computation got to where it ended. *)
Lemma bind_inv {A B : Type} (m : M A) (f : A -> M B) (h h' : history)
  (r : result B) :
  bind m f h = (h', r) ->
  (exists x, m h = (h', Threw x) /\ r = Threw x) \/
  (exists a h1, m h = (h1, Ok a) /\ f a h1 = (h', r)).
Proof.
  unfold bind. destruct (m h) as [h1 [a|x]]; intros E.
  - right. now exists a, h1.
  - left. exists x. now injection E as <- <-.
Qed.

Lemma emit_inv (e : event) (h h' : history) (r : result unit) :
  emit e h = (h', r) -> h' = (h ++ [e])%list.
Proof. intros E. now injection E as <- _. Qed.

Lemma call_inv {A : Type} (e : event) (answer : history -> result A)
  (h h' : history) (r : result A) :
  call e answer h = (h', r) -> h' = (h ++ [e])%list.
Proof. intros E. now injection E as <- _. Qed.

Lemma lift_inv {A : Type} (r r' : result A) (h h' : history) :
  lift r h = (h', r') -> h' = h /\ r = r'.
Proof. intros E. now injection E as <- <-. Qed.

Lemma ret_inv {A : Type} (a : A) (h h' : history) (r : result A) :
  ret a h = (h', r) -> h' = h.
Proof. intros E. now injection E as <- _. Qed.

(** Follows the computation of [H], step by step and along every way it can
    end, to the history it left; a step is followed to its end before the
    steps after it. *)
Ltac follow H :=
  lazymatch type of H with
  | bind _ _ _ = (_, _) =>
      let H1 := fresh "step" in
      let R := fresh "ended" in
      apply bind_inv in H;
      destruct H as [(? & H & R)|(? & ? & H1 & H)];
      [ try discriminate R; try subst; follow H
      | follow H1; cbv beta in H; follow H ]
  | emit _ _ = (_, _) => apply emit_inv in H; subst
  | call _ _ _ = (_, _) => apply call_inv in H; subst
  | ret _ _ = (_, _) => apply ret_inv in H; subst
  | lift (nwFlag _ _) _ = (_, Ok ?p) =>
      apply lift_inv in H; destruct H as [-> H];
      destruct p as [? ?]; apply nwFlag_args in H; cbn [fst snd] in *; subst
  | lift _ _ = (_, _) => apply lift_inv in H; destruct H as [-> _]
  | (if ?c then _ else _) _ = (_, _) => destruct c; follow H
  | _ => idtac
  end.

(** However the steps after the guards end, the commands and copies made
    are the first ones of a plan. *)
Lemma build_actions_prefix (w : World) (h : history) (r : result unit) :
  build w (getInput w "access-token")
    (deployBranch (getInput w "deploy-branch")) [] = (h, r) ->
  exists yarnLock nw cname rest,
    plan w yarnLock nw cname = (actions h ++ rest)%list.
Proof.
  intros H. unfold build in H. apply bind_inv in H.
  destruct H as [(x & H & _)|(yarnLock & h1 & Ey & H)].
  { apply call_inv in H. subst h. exists true, true, true. eexists.
    reflexivity. }
  pose proof (call_inv _ _ _ _ _ Ey) as ->.
  unfold exists_p, call in Ey. injection Ey as Ey. simpl in Ey.
  destruct yarnLock; unfold installAndDeploy, scullyVersion in H;
    [ change (String.eqb (pkgManager true) "yarn") with true in H
    | change (String.eqb (pkgManager false) "yarn") with false in H ];
    cbv iota zeta in H;
    unfold copyCname, deploy, log, exec, readFileSync, cp, exists_p in H;
    cbv zeta in H;
    follow H;
    match goal with
    | Ey : _ = Ok ?y |- _ =>
        first [ exists y, true, true; eexists; reflexivity
              | exists y, true, false; eexists; reflexivity
              | exists y, false, true; eexists; reflexivity
              | exists y, false, false; eexists; reflexivity ]
    end.
Qed.

Lemma actions_reported {A : Type} (h : history) (r : result A) :
  actions (h ++ reported r)%list = actions h.
Proof.
  unfold actions. rewrite filter_app.
  destruct r as [a|[message|]]; simpl; apply app_nil_r.
Qed.

(** The steps of a run (lines 31-109) come in one fixed order, each only
    after the ones before it: whatever happens, the commands and copies of a
    run are the first ones of the plan of a complete run (install, build,
    generate, the copy of [CNAME] when the file is there, the five git
    commands for the commit and the forced push). *)
Theorem run_follows_plan_so_far (w : World) :
  exists yarnLock nw cname rest,
    plan w yarnLock nw cname = (actions (run w) ++ rest)%list.
Proof.
  rewrite run_reported, actions_reported. unfold body. cbv zeta.
  destruct (String.eqb _ "");
    [exists true, true, true; eexists; reflexivity|].
  destruct (String.eqb _ _);
    [exists true, true, true; eexists; reflexivity|].
  destruct (build w (getInput w "access-token")
              (deployBranch (getInput w "deploy-branch")) []) as [h r] eqn:E.
  exact (build_actions_prefix w h r E).
Qed.

(** *** The two guards together *)

(** A run gets to the probe of [./yarn.lock], the first step of deploying
    (line 31), exactly when the access token is not blank and the triggering
    ref is not the ref of the deploy branch (lines 15 and 25). *)
Theorem probes_unless_guarded (w : World) :
  In (Exists "./yarn.lock") (run w) <->
  getInput w "access-token" <> "" /\
  ref (context w) <>
    "refs/heads/" ++ deployBranch (getInput w "deploy-branch").
Proof.
  rewrite run_reported. unfold body. cbv zeta.
  destruct (String.eqb_spec (getInput w "access-token") "") as [blank|token].
  { split; [intros [S|[]]; discriminate S | now intros [N _]]. }
  destruct (String.eqb_spec (ref (context w))
              ("refs/heads/" ++ deployBranch (getInput w "deploy-branch")))
    as [same|other].
  { split; [intros [S|[S|[]]]; discriminate S | now intros [_ N]]. }
  split; [now intros _|]. intros _. apply in_or_app. left.
  unfold build, exists_p. rewrite bind_call.
  destruct (exists_ w _) as [yarnLock|x]; [|now left].
  destruct (installAndDeploy_extends w (pkgManager yarnLock)
              (getInput w "access-token")
              (deployBranch (getInput w "deploy-branch"))
              ([] ++ [Exists "./yarn.lock"])%list) as (tr & E).
  rewrite E. now left.
Qed.

Lemma probes_unless_guarded_witness :
  In (Exists "./yarn.lock") (run (steady "tok")).
Proof.
  apply (probes_unless_guarded (steady "tok")). split; discriminate.
Defined.

End Behaviour.
